(** * usePortsMetadata

    A shallow embedding of [src/hooks/usePortsMetadata.js]: the hook that
    joins the repositories returned by the GitHub search query with the
    project's static port metadata, derives the display fields and sorts the
    merged records by stargazer count.

    Records are JavaScript objects, modelled as finite maps from property
    names to values; a thrown [TypeError] is an explicit outcome. *)

From stdpp Require Import base gmap list strings.
From Stdlib Require Import ZArith Lia.

Set Warnings "-register-all".

Local Open Scope Z_scope.

(** ** The fragment of JavaScript the hook runs on *)

Module JS.

(** Plain data: what a GraphQL response and a static data module hold.
    Numbers are the integer-valued ones (a stargazer total is a GraphQL
    [Int]). An object keeps its own data properties; a property whose value is
    [undefined] is still a property. *)
Inductive value : Type :=
| VUndefined
| VNull
| VBool (b : bool)
| VNum (n : Z)
| VStr (s : string)
| VObj (o : gmap string value)
| VArr (a : list value).

Abbreviation obj := (gmap string value).

(** The completion of an evaluation: a value, or a thrown [TypeError] (the
    only exception the hook's operations can raise). *)
Inductive result (A : Type) : Type :=
| Ok (a : A)
| TypeError.
Arguments Ok {A} a.
Arguments TypeError {A}.

#[global] Instance result_ret : MRet result := fun A a => Ok a.
#[global] Instance result_bind : MBind result :=
  fun A B f r => match r with Ok a => f a | TypeError => TypeError end.
#[global] Instance result_fmap : FMap result :=
  fun A B f r => match r with Ok a => Ok (f a) | TypeError => TypeError end.

(** [o[k]] on an object: the own property, [undefined] when there is none.
    Inherited built-ins are functions and lie outside the data universe. *)
Definition getField (o : obj) (k : string) : value :=
  default VUndefined (o !! k).

(** [v.k] on any value: reading a property of [undefined] or [null] throws.
    None of the names the hook reads this way ([totalCount], [edges], [node],
    [count]) is a built-in property of a string, number, boolean or array. *)
Definition getProp (v : value) (k : string) : result value :=
  match v with
  | VUndefined | VNull => TypeError
  | VObj o => Ok (getField o k)
  | _ => Ok VUndefined
  end.

(** [v[0]]. *)
Definition getFirst (v : value) : result value :=
  match v with
  | VUndefined | VNull => TypeError
  | VArr a => Ok (default VUndefined (a !! 0%nat))
  | VObj o => Ok (getField o "0")
  | VStr (String c _) => Ok (VStr (String c EmptyString))
  | _ => Ok VUndefined
  end.

(** [v?.k]: short-circuits to [undefined] on [undefined] and [null]. *)
Definition optChain (v : value) (k : string) : result value :=
  match v with
  | VUndefined | VNull => Ok VUndefined
  | _ => getProp v k
  end.

(** [x === y]. Objects and arrays compare by identity; the two operands of
    the hook's comparison come from two separately built structures (the query
    result and the static data module), so they are never the same object. *)
Definition strict_eq (x y : value) : bool :=
  match x, y with
  | VUndefined, VUndefined => true
  | VNull, VNull => true
  | VBool a, VBool b => bool_decide (a = b)
  | VNum a, VNum b => bool_decide (a = b)
  | VStr a, VStr b => bool_decide (a = b)
  | _, _ => false
  end.

(** [ToNumber] of a boolean, as [SortCompare] applies it to the value the
    comparison function returns. *)
Definition ToNumber (b : bool) : Z := if b then 1 else 0.

(** [{...target, ...source}]: every own property of [source] is written onto
    [target], replacing a property of the same name. *)
Definition spread (target source : obj) : obj := source ∪ target.

(** [Array.prototype.find]: the first element the predicate accepts. *)
Fixpoint find {A : Type} (p : A → bool) (l : list A) : option A :=
  match l with
  | [] => None
  | x :: l' => if p x then Some x else find p l'
  end.

End JS.

Import JS.

(** ** What the engine provides

    Three operations are the engine's and not the hook's: the string coercion
    of a template literal applied to something that is not a string, the
    relational comparison of operands that are not both numbers (both go
    through [ToPrimitive] and may throw), and [Array.prototype.sort], which
    receives the comparison function's numeric signal. *)
Record Host : Type := {
  coerceString : value → result string;
  coerceLess : value → value → result bool;
  sort : (obj → obj → result Z) → list obj → result (list obj)
}.

(** What every engine's sort satisfies, whatever the comparison function: it
    returns a rearrangement of its input, and it returns normally whenever
    the comparison function does. Nothing more can be relied on: for a
    comparison function that is not a consistent comparator ECMAScript leaves
    the order to the engine. *)
Definition conforming (host : Host) : Prop :=
  (∀ cmp l l', sort host cmp l = Ok l' → l' ≡ₚ l) ∧
  (∀ cmp l,
     (∀ x y, x ∈ l → y ∈ l → ∃ v, cmp x y = Ok v) →
     ∃ l', sort host cmp l = Ok l').

(** ** V8's sort on short arrays

    [Array.prototype.sort] as V8 (Node.js 11 and later, Chrome 70 and later)
    implements it in [third_party/v8/builtins/array-sort.tq], for an array of
    fewer than 64 elements: there [ComputeMinRunLength] is the array's length,
    so [ArrayTimSortImpl] makes one pass of [CountAndMakeRun] and, when the
    run stops short, one pass of [BinaryInsertionSort] over the rest; no run
    is ever merged. The work array is a list, [low] is 0 and [high] is the
    length. Longer arrays, which V8 cuts into runs and merges, are not
    modelled: on them the definitions below are a binary insertion sort, and
    nothing is said about V8. *)

Module V8.

Section TimSort.

Context {A : Type}.
Variable Compare : A → A → result Z.

(** The loop of [CountAndMakeRun]: the run goes on while the order of each
    element against its predecessor agrees with the direction of the first
    pair. *)
Fixpoint extendRun (isDescending : bool) (previousElement : A)
  (rest : list A) (runLength : nat) : result nat :=
  match rest with
  | [] => Ok runLength
  | currentElement :: rest' =>
      order ← Compare currentElement previousElement;
      if isDescending
      then if bool_decide (0 ≤ order) then Ok runLength
           else extendRun isDescending currentElement rest' (S runLength)
      else if bool_decide (order < 0) then Ok runLength
           else extendRun isDescending currentElement rest' (S runLength)
  end.

(** [CountAndMakeRun]: the length of the run the array starts with, and the
    array with that run reversed when it was strictly descending. *)
Definition CountAndMakeRun (work : list A) : result (nat * list A) :=
  match work with
  | elementHigh :: elementLow :: rest =>
      order ← Compare elementLow elementHigh;
      let isDescending := bool_decide (order < 0) in
      runLength ← extendRun isDescending elementLow rest 2;
      Ok (runLength,
          if isDescending
          then reverse (take runLength work) ++ drop runLength work
          else work)
  | _ => Ok (length work, work)
  end.

(** The binary search of [BinaryInsertionSort]: the position in
    [work[left..right)] where [pivot] belongs. Each round halves the
    interval, so [right - left] rounds are enough. *)
Fixpoint searchLeft (rounds : nat) (work : list A) (pivot : A)
  (left right : nat) : result nat :=
  match rounds with
  | O => Ok left
  | S rounds' =>
      if bool_decide (left < right)%nat
      then
        let mid := (left + (right - left) / 2)%nat in
        match work !! mid with
        | Some element =>
            order ← Compare pivot element;
            if bool_decide (order < 0)
            then searchLeft rounds' work pivot left mid
            else searchLeft rounds' work pivot (S mid) right
        | None => Ok left
        end
      else Ok left
  end.

(** The outer loop of [BinaryInsertionSort]: [sorted] is [work[0..start)],
    [rest] is [work[start..high)]; each pivot is moved to its position. *)
Fixpoint insertEach (sorted rest : list A) : result (list A) :=
  match rest with
  | [] => Ok sorted
  | pivot :: rest' =>
      left ← searchLeft (length sorted) sorted pivot 0 (length sorted);
      insertEach (take left sorted ++ pivot :: drop left sorted) rest'
  end.

Definition BinaryInsertionSort (work : list A) (start : nat)
  : result (list A) :=
  let start := if bool_decide (start = 0%nat) then 1%nat else start in
  insertEach (take start work) (drop start work).

(** [ArrayTimSortImpl] below the minimum run length. *)
Definition ArrayTimSort (work : list A) : result (list A) :=
  if bool_decide (length work < 2)%nat then Ok work
  else
    run ← CountAndMakeRun work;
    if bool_decide (run.1 < length work)%nat
    then BinaryInsertionSort run.2 run.1
    else Ok run.2.

End TimSort.

(** V8 as a host, for given coercions. *)
Definition host (coerceString : value → result string)
  (coerceLess : value → value → result bool) : Host :=
  {| coerceString := coerceString;
     coerceLess := coerceLess;
     sort := ArrayTimSort |}.

End V8.

(** ** The hook *)

(** An element of [gitHubApi.github.search.edges]. *)
Record Edge : Type := { node : obj }.

(** What is left of [s] after [prefix], when [s] starts with it. *)
Fixpoint after (prefix s : string) : option string :=
  match prefix, s with
  | EmptyString, _ => Some s
  | String a prefix', String b s' =>
      if Ascii.eqb a b then after prefix' s' else None
  | String _ _, EmptyString => None
  end.

(** [name.replace(/^(nord-)/, "")] on a string: the pattern is anchored at
    the start and matches the five characters literally and once. *)
Definition stripPrefix (name : string) : string :=
  default name (after "nord-" name).

(** The call [stripPrefix(v)]: only a string has a [replace] method. *)
Definition callStripPrefix (v : value) : result string :=
  match v with
  | VStr name => Ok (stripPrefix name)
  | _ => TypeError
  end.

(** [const { releases, stargazers, url, ...ghRepoData } = gh.node]: the rest
    object. *)
Definition ghRepoData (n : obj) : obj :=
  delete "url" (delete "stargazers" (delete "releases" n)).

Section Hook.

(** [ROUTE_PORTS], imported from [config/routes/mappings]. *)
Variable ROUTE_PORTS : string.
Variable host : Host.

(** A template-literal substitution [${v}]. *)
Definition substitution (v : value) : result string :=
  match v with
  | VStr s => Ok s
  | _ => coerceString host v
  end.

(** The four properties the object literal writes first (lines 89 to 92). *)
Definition derivedFields (n : obj) : result obj :=
  let releases := getField n "releases" in
  let stargazers := getField n "stargazers" in
  let url := getField n "url" in
  count ← getProp stargazers "totalCount";
  u ← substitution url;
  releaseEdges ← getProp releases "edges";
  first ← getFirst releaseEdges;
  releaseLatest ← optChain first "node";
  suffix ← callStripPrefix (getField n "name");
  Ok (<["url" := VStr (ROUTE_PORTS +:+ "/" +:+ suffix)]>
      (<["releaseLatest" := releaseLatest]>
       (<["stargazers" :=
            VObj (<["url" := VStr (u +:+ "/stargazers")]>
                  (<["count" := count]> ∅))]>
        (<["gitHubRepositoryUrl" := url]> ∅)))).

(** The object literal of lines 88 to 95 for a found node. *)
Definition mergeNode (port n : obj) : result obj :=
  derived ← derivedFields n;
  Ok (spread (spread derived (ghRepoData n)) port).

(** The predicate handed to [find] on line 86. *)
Definition sameId (idProperty : string) (port : obj) (ghRepo : Edge) : bool :=
  strict_eq (getField (node ghRepo) idProperty) (getField port idProperty).

(** The callback of [projectPorts.map]: [gh.node] throws when [find] returned
    [undefined]. *)
Definition mergePort (idProperty : string) (edges : list Edge) (port : obj)
  : result obj :=
  match find (sameId idProperty port) edges with
  | None => TypeError
  | Some gh => mergeNode port (node gh)
  end.

(** [md.stargazers.count]. *)
Definition stargazersCount (md : obj) : result value :=
  getProp (getField md "stargazers") "count".

(** [a < b] on the two stargazer counts. *)
Definition lessThan (a b : value) : result bool :=
  match a, b with
  | VNum x, VNum y => Ok (x <? y)
  | _, _ => coerceLess host a b
  end.

(** The comparison function of line 97 followed by [SortCompare]'s
    [ToNumber]. *)
Definition compareStars (md1 md2 : obj) : result Z :=
  c1 ← stargazersCount md1;
  c2 ← stargazersCount md2;
  b ← lessThan c1 c2;
  Ok (ToNumber b).

(** The memoized computation (lines 84 to 98). *)
Definition mergedMetadata (idProperty : string) (projectPorts : list obj)
  (edges : list Edge) : result (list obj) :=
  merged ← mapM (mergePort idProperty edges) projectPorts;
  sort host compareStars merged.

(** [usePortsMetadata(idProperty = "name")]: an omitted argument takes the
    default. *)
Definition usePortsMetadata (idProperty : option string)
  (projectPorts : list obj) (edges : list Edge) : result (list obj) :=
  mergedMetadata (default "name"%string idProperty) projectPorts edges.

End Hook.

(** ** The shape of the query result

    What the query of lines 21 to 49 selects for each repository: [id],
    [name], [releases(last: 1)] with the [name] and [url] of each release,
    [stargazers.totalCount] and [url]. A release is kept as the object it
    is; the hook hands it on untouched. *)
Record Repository : Type := {
  repo_id : string;
  repo_name : string;
  repo_releases : list obj;
  repo_stargazers : Z;
  repo_url : string
}.

Definition releaseEdge (release : obj) : value :=
  VObj {[ "node" := VObj release ]}.

(** The [node] object the query yields for a repository. *)
Definition repo_node (r : Repository) : obj :=
  <["id" := VStr (repo_id r)]>
  (<["name" := VStr (repo_name r)]>
   (<["releases" :=
        VObj {[ "edges" := VArr (releaseEdge <$> repo_releases r) ]}]>
    (<["stargazers" := VObj {[ "totalCount" := VNum (repo_stargazers r) ]}]>
     (<["url" := VStr (repo_url r)]> ∅)))).

Definition repo_edge (r : Repository) : Edge := {| node := repo_node r |}.

(** The derived properties of a repository of that shape, field by field. *)
Definition repoDerived (ROUTE_PORTS : string) (r : Repository) : obj :=
  <["url" := VStr (ROUTE_PORTS +:+ "/" +:+ stripPrefix (repo_name r))]>
  (<["releaseLatest" := default VUndefined (VObj <$> head (repo_releases r))]>
   (<["stargazers" :=
        VObj (<["url" := VStr (repo_url r +:+ "/stargazers")]>
              (<["count" := VNum (repo_stargazers r)]> ∅))]>
    (<["gitHubRepositoryUrl" := VStr (repo_url r)]> ∅))).

(** ** Vocabulary of the properties *)

(** The static record defines a property named [k]. *)
Definition defines (k : string) (port : obj) : bool :=
  match port !! k with Some _ => true | None => false end.

(** Every static record has a counterpart in the remote result set. *)
Definition fullCoverage (idProperty : string) (projectPorts : list obj)
  (edges : list Edge) : bool :=
  forallb (λ port, existsb (sameId idProperty port) edges) projectPorts.

(** No static record defines a property named [k]. *)
Definition noneDefines (k : string) (projectPorts : list obj) : bool :=
  forallb (λ port, negb (defines k port)) projectPorts.

(** The output record [md] holds [gitHubRepositoryUrl], [stargazers.count],
    [stargazers.url], [url] and every field of the static record [port]. *)
Definition guaranteedFields (port md : obj) : Prop :=
  is_Some (md !! "gitHubRepositoryUrl") ∧
  (∃ stargazers, md !! "stargazers" = Some (VObj stargazers) ∧
     is_Some (stargazers !! "count") ∧ is_Some (stargazers !! "url")) ∧
  is_Some (md !! "url") ∧
  ∀ k v, port !! k = Some v → md !! k = Some v.

(** The static record leaves [stargazers] alone, or defines it as an object
    with a numeric [count] and a [url]. *)
Definition keepsStargazers (port : obj) : bool :=
  match port !! "stargazers" with
  | None => true
  | Some (VObj stargazers) =>
      match stargazers !! "count" with
      | Some (VNum _) => defines "url" stargazers
      | _ => false
      end
  | Some _ => false
  end.

(** [undefined] or [null]: the values a property cannot be read from. *)
Definition nullish (v : value) : bool :=
  match v with VUndefined | VNull => true | _ => false end.

(** The stargazer counts do not increase along the sequence. *)
Fixpoint descending (counts : list Z) : bool :=
  match counts with
  | a :: (b :: _) as rest => bool_decide (b ≤ a) && descending rest
  | _ => true
  end.

(** ** Sample data *)

Module Sample.

Definition ROUTE_PORTS : string := "/ports".

(** V8's sort with every coercion refused: where the engine would coerce
    (a template literal on a non-string, [<] on a non-number) this host
    throws, so it is V8 only on data that needs no coercion, as the sample
    data is wherever a result below returns. *)
Definition v8 : Host := V8.host (λ _, TypeError) (λ _ _, TypeError).

Definition vim : Repository :=
  {| repo_id := "MDEwOlJlcG9zaXRvcnk2NzU0NzQwNw==";
     repo_name := "nord-vim";
     repo_releases :=
       [ {[ "name" := VStr "0.19.0";
            "url" := VStr "https://github.com/arcticicestudio/nord-vim/releases/tag/v0.19.0" ]} ];
     repo_stargazers := 20;
     repo_url := "https://github.com/arcticicestudio/nord-vim" |}.

Definition emacs : Repository :=
  {| repo_id := "MDEwOlJlcG9zaXRvcnk3NjQ2MzQ0OQ==";
     repo_name := "nord-emacs";
     repo_releases := [];
     repo_stargazers := 10;
     repo_url := "https://github.com/arcticicestudio/nord-emacs" |}.

Definition tmux : Repository :=
  {| repo_id := "MDEwOlJlcG9zaXRvcnk4MDI2MjUyNg==";
     repo_name := "tmux";
     repo_releases := [];
     repo_stargazers := 5;
     repo_url := "https://github.com/arcticicestudio/tmux" |}.

(** A second repository named [nord-vim], later in the result set. *)
Definition vimFork : Repository :=
  {| repo_id := "MDEwOlJlcG9zaXRvcnkxMjM0NTY3OA==";
     repo_name := "nord-vim";
     repo_releases := [];
     repo_stargazers := 1;
     repo_url := "https://github.com/example/nord-vim" |}.

(** The search result, most starred first as the query asks. *)
Definition edges : list Edge := repo_edge <$> [vim; emacs; tmux].

Definition portTmux : obj := {[ "name" := VStr "tmux"; "title" := VStr "tmux" ]}.
Definition portVim : obj := {[ "name" := VStr "nord-vim"; "title" := VStr "Vim" ]}.
Definition portEmacs : obj :=
  {[ "name" := VStr "nord-emacs"; "title" := VStr "Emacs" ]}.

(** The static list, in the order the data module lists it. *)
Definition projectPorts : list obj := [portTmux; portVim; portEmacs].

(** A static record with no repository behind it. *)
Definition portAtom : obj := {[ "name" := VStr "nord-atom" ]}.

(** Static records that define a property the hook derives. *)
Definition portVimStars : obj :=
  {[ "name" := VStr "nord-vim"; "stargazers" := VStr "many" ]}.
Definition portTmuxNoStars : obj :=
  {[ "name" := VStr "tmux"; "stargazers" := VNull ]}.
Definition portVimUrl : obj :=
  {[ "name" := VStr "nord-vim"; "url" := VStr "https://www.vim.org" ]}.
Definition portEmacsRelease : obj :=
  {[ "name" := VStr "nord-emacs"; "releaseLatest" := VStr "0.5.0" ]}.

(** A repository whose name is that of [vim] without the prefix. *)
Definition plainVim : Repository :=
  {| repo_id := "MDEwOlJlcG9zaXRvcnk5ODc2NTQzMg==";
     repo_name := "vim";
     repo_releases := [];
     repo_stargazers := 3;
     repo_url := "https://github.com/arcticicestudio/vim" |}.

(** A remote node that carries properties under two of the derived names. *)
Definition nodeShadowing : obj :=
  <["gitHubRepositoryUrl" := VStr "https://example.org/mirror/nord-emacs"]>
  (<["releaseLatest" := VStr "1.0.0"]> (repo_node emacs)).

(** A static record with a [stargazers] object of its own. *)
Definition portEmacsPinned : obj :=
  {[ "name" := VStr "nord-emacs";
     "stargazers" :=
       VObj {[ "count" := VNum 12;
               "url" := VStr "https://www.nordtheme.com/ports/emacs" ]} ]}.

(** A static record identified by its repository's [url]. *)
Definition portVimByUrl : obj :=
  {[ "url" := VStr "https://github.com/arcticicestudio/nord-vim";
     "title" := VStr "Vim" ]}.

(** A static record without a [name]. *)
Definition portUntitled : obj := {[ "title" := VStr "Untitled" ]}.

(** A remote node without a [name], and one without [stargazers]. *)
Definition nodeUnnamed : obj := delete "name" (repo_node emacs).
Definition nodeUnstarred : obj := delete "stargazers" (repo_node emacs).

End Sample.

(** ** V8's sort: it rearranges, and returns when the comparison does *)

Section V8Facts.

Context {A : Type}.
Variable Compare : A → A → result Z.

Lemma extendRun_returns (P : A → Prop) isDescending :
  (∀ x y, P x → P y → ∃ v, Compare x y = Ok v) →
  ∀ rest previousElement runLength,
    P previousElement → Forall P rest →
    ∃ n, V8.extendRun Compare isDescending previousElement rest runLength
         = Ok n.
Proof.
  intros HP rest. induction rest as [|c rest IH]; intros prev n Hprev Hrest.
  - by exists n.
  - apply Forall_cons in Hrest as [Hc Hrest]. simpl.
    destruct (HP c prev Hc Hprev) as [v ->]. simpl.
    destruct isDescending; case_bool_decide; eauto.
Qed.

Lemma CountAndMakeRun_permutation work run :
  V8.CountAndMakeRun Compare work = Ok run → run.2 ≡ₚ work.
Proof.
  destruct work as [|hi [|lo rest]]; simpl; try (intros [= <-]; done).
  destruct (Compare lo hi) as [order|]; [simpl|done].
  destruct (V8.extendRun _ _ lo rest 2) as [n|]; [simpl|done].
  intros [= <-]. simpl. case_bool_decide; [|done].
  rewrite reverse_Permutation. by rewrite take_drop.
Qed.

Lemma CountAndMakeRun_returns (P : A → Prop) work :
  (∀ x y, P x → P y → ∃ v, Compare x y = Ok v) →
  Forall P work → ∃ run, V8.CountAndMakeRun Compare work = Ok run.
Proof.
  intros HP Hwork. destruct work as [|hi [|lo rest]]; simpl; eauto.
  apply Forall_cons in Hwork as [Hhi Hwork].
  apply Forall_cons in Hwork as [Hlo Hrest].
  destruct (HP lo hi Hlo Hhi) as [order ->]. simpl.
  destruct (extendRun_returns P (bool_decide (order < 0)) HP rest lo 2%nat
              Hlo Hrest) as [n ->].
  simpl. eauto.
Qed.

Lemma searchLeft_returns (P : A → Prop) work pivot :
  (∀ x y, P x → P y → ∃ v, Compare x y = Ok v) →
  P pivot → Forall P work →
  ∀ rounds left right,
    ∃ p, V8.searchLeft Compare rounds work pivot left right = Ok p.
Proof.
  intros HP Hpivot Hwork rounds.
  induction rounds as [|rounds IH]; intros left right; simpl; [eauto|].
  case_bool_decide; [|eauto].
  destruct (work !! _) as [element|] eqn:Hmid; [|eauto].
  assert (P element) as Helement.
  { eapply Forall_forall; [exact Hwork|]. by eapply list_elem_of_lookup_2. }
  destruct (HP pivot element Hpivot Helement) as [order ->]. simpl.
  case_bool_decide; apply IH.
Qed.

Lemma insertEach_permutation rest :
  ∀ sorted l, V8.insertEach Compare sorted rest = Ok l → l ≡ₚ sorted ++ rest.
Proof.
  induction rest as [|pivot rest IH]; intros sorted l; simpl.
  - intros [= <-]. by rewrite app_nil_r.
  - destruct (V8.searchLeft _ _ sorted pivot 0 _) as [left|]; [simpl|done].
    intros Hl. rewrite (IH _ _ Hl).
    rewrite <-(take_drop left sorted) at 3.
    rewrite <-!app_assoc. f_equiv. simpl.
    by rewrite Permutation_middle.
Qed.

Lemma insertEach_returns (P : A → Prop) rest :
  (∀ x y, P x → P y → ∃ v, Compare x y = Ok v) →
  ∀ sorted, Forall P sorted → Forall P rest →
    ∃ l, V8.insertEach Compare sorted rest = Ok l.
Proof.
  intros HP. induction rest as [|pivot rest IH]; intros sorted Hs Hr; simpl.
  - eauto.
  - apply Forall_cons in Hr as [Hpivot Hr].
    destruct (searchLeft_returns P sorted pivot HP Hpivot Hs
                (length sorted) 0%nat (length sorted)) as [left ->].
    simpl. apply IH; [|done].
    apply Forall_app. split; [by apply Forall_take|].
    apply Forall_cons. split; [done|by apply Forall_drop].
Qed.

Lemma ArrayTimSort_permutation work l :
  V8.ArrayTimSort Compare work = Ok l → l ≡ₚ work.
Proof.
  unfold V8.ArrayTimSort. case_bool_decide; [by intros [= <-]|].
  destruct (V8.CountAndMakeRun Compare work) as [run|] eqn:Hrun;
    [simpl|done].
  apply CountAndMakeRun_permutation in Hrun.
  case_bool_decide; [|by intros [= <-]].
  unfold V8.BinaryInsertionSort. intros Hl.
  apply insertEach_permutation in Hl.
  by rewrite Hl, take_drop.
Qed.

Lemma ArrayTimSort_returns work :
  (∀ x y, x ∈ work → y ∈ work → ∃ v, Compare x y = Ok v) →
  ∃ l, V8.ArrayTimSort Compare work = Ok l.
Proof.
  intros HP. unfold V8.ArrayTimSort. case_bool_decide; [eauto|].
  assert (Forall (λ x, x ∈ work) work) as Hwork by by apply Forall_forall.
  destruct (CountAndMakeRun_returns (λ x, x ∈ work) work HP Hwork)
    as [run Hrun].
  rewrite Hrun. simpl. case_bool_decide; [|eauto].
  apply CountAndMakeRun_permutation in Hrun.
  assert (Forall (λ x, x ∈ work) run.2) as Hrun2.
  { apply Forall_forall. intros x Hx. by rewrite <-Hrun. }
  unfold V8.BinaryInsertionSort.
  apply (insertEach_returns (λ x, x ∈ work)); [done| |].
  - by apply Forall_take.
  - by apply Forall_drop.
Qed.

(** Every test in the short-array path is [order < 0]; under a comparison
    function that never answers below zero the first run is the whole array
    and nothing is moved. *)
Lemma extendRun_nonnegative (P : A → Prop) :
  (∀ x y, P x → P y → ∃ v, Compare x y = Ok v ∧ 0 ≤ v) →
  ∀ rest previousElement runLength,
    P previousElement → Forall P rest →
    V8.extendRun Compare false previousElement rest runLength
    = Ok (runLength + length rest)%nat.
Proof.
  intros HP rest. induction rest as [|c rest IH]; intros prev n Hprev Hrest.
  - simpl. f_equal. lia.
  - apply Forall_cons in Hrest as [Hc Hrest]. simpl.
    destruct (HP c prev Hc Hprev) as (v & -> & Hv). simpl.
    rewrite bool_decide_eq_false_2 by lia.
    rewrite (IH c (S n) Hc Hrest). f_equal. lia.
Qed.

Lemma ArrayTimSort_nonnegative work :
  (∀ x y, x ∈ work → y ∈ work → ∃ v, Compare x y = Ok v ∧ 0 ≤ v) →
  V8.ArrayTimSort Compare work = Ok work.
Proof.
  intros HP. unfold V8.ArrayTimSort. case_bool_decide; [done|].
  destruct work as [|hi [|lo rest]]; [done|done|].
  assert (Forall (λ x, x ∈ hi :: lo :: rest) (hi :: lo :: rest)) as Hwork
    by by apply Forall_forall.
  apply Forall_cons in Hwork as [Hhi Hwork].
  apply Forall_cons in Hwork as [Hlo Hrest].
  unfold V8.CountAndMakeRun.
  destruct (HP lo hi Hlo Hhi) as (order & -> & Horder). simpl.
  rewrite (bool_decide_eq_false_2 (order < 0)) by lia.
  rewrite (extendRun_nonnegative _ HP rest lo 2%nat Hlo Hrest). simpl.
  rewrite bool_decide_eq_false_2 by lia. done.
Qed.

End V8Facts.

Lemma V8_conforming coerceString coerceLess :
  conforming (V8.host coerceString coerceLess).
Proof.
  split.
  - intros cmp l l'. apply ArrayTimSort_permutation.
  - intros cmp l. apply ArrayTimSort_returns.
Qed.

(** ** Auxiliary facts *)

Lemma after_app prefix s : after prefix (prefix +:+ s) = Some s.
Proof.
  induction prefix as [|a prefix IH]; simpl; [done|].
  by rewrite Ascii.eqb_refl.
Qed.

Lemma after_Some prefix : ∀ s t, after prefix s = Some t → s = prefix +:+ t.
Proof.
  induction prefix as [|a prefix IH]; intros s t; simpl.
  - by intros [= ->].
  - destruct s as [|b s]; [done|].
    destruct (Ascii.eqb a b) eqn:Hab; [|done].
    apply Ascii.eqb_eq in Hab as ->. intros Hs. by rewrite (IH _ _ Hs).
Qed.

Lemma stripPrefix_prefixed rest : stripPrefix ("nord-" +:+ rest) = rest.
Proof. unfold stripPrefix. by rewrite after_app. Qed.

Lemma stripPrefix_other name :
  (∀ rest, name ≠ "nord-" +:+ rest) → stripPrefix name = name.
Proof.
  intros Hname. unfold stripPrefix.
  destruct (after "nord-" name) as [rest|] eqn:Hrest; [|done].
  apply after_Some in Hrest. by destruct (Hname rest).
Qed.

Section FindFacts.

Context {A : Type} (p : A → bool).

Lemma find_Some l x : find p l = Some x → x ∈ l ∧ p x = true.
Proof.
  induction l as [|y l IH]; simpl; [done|].
  destruct (p y) eqn:Hy.
  - intros [= ->]. split; [left|done].
  - intros Hx. destruct (IH Hx). split; [by right|done].
Qed.

Lemma find_existsb l : existsb p l = true → ∃ x, find p l = Some x.
Proof.
  induction l as [|y l IH]; simpl; [done|].
  destruct (p y); simpl; eauto.
Qed.

Lemma find_none l : existsb p l = false → find p l = None.
Proof.
  induction l as [|y l IH]; simpl; [done|].
  destruct (p y); simpl; [done|auto].
Qed.

Lemma find_first pre x post :
  existsb p pre = false → p x = true → find p (pre ++ x :: post) = Some x.
Proof.
  intros Hpre Hx. induction pre as [|y pre IH]; simpl in *.
  - by rewrite Hx.
  - destruct (p y); simpl in *; [done|auto].
Qed.

End FindFacts.

Section MapFacts.

Context {A B : Type} (f : A → result B).

Lemma mapM_fault before x rest :
  f x = TypeError → mapM f (before ++ x :: rest) = TypeError.
Proof.
  intros Hx. induction before as [|y before IH]; simpl.
  - by rewrite Hx.
  - destruct (f y); simpl; [|done]. by rewrite IH.
Qed.

Lemma mapM_each l : ∀ l', mapM f l = Ok l' → Forall2 (λ x y, f x = Ok y) l l'.
Proof.
  induction l as [|x l IH]; intros l'; simpl.
  - intros [= <-]. constructor.
  - destruct (f x) as [y|] eqn:Hx; simpl; [|done].
    destruct (mapM f l) as [k|]; simpl; [|done].
    intros [= <-]. constructor; auto.
Qed.

Lemma mapM_returns l :
  Forall (λ x, ∃ y, f x = Ok y) l → ∃ l', mapM f l = Ok l'.
Proof.
  induction 1 as [|x l [y Hy] _ [k Hk]]; simpl; [eauto|].
  rewrite Hy. simpl. rewrite Hk. simpl. eauto.
Qed.

End MapFacts.

Lemma spread_lookup target source k :
  spread target source !! k
  = match source !! k with Some v => Some v | None => target !! k end.
Proof.
  unfold spread. rewrite lookup_union.
  by destruct (source !! k), (target !! k).
Qed.

Lemma ghRepoData_lookup_rest n k :
  k ≠ "releases" → k ≠ "stargazers" → k ≠ "url" → ghRepoData n !! k = n !! k.
Proof. intros. unfold ghRepoData. by rewrite !lookup_delete_ne. Qed.

Section HookFacts.

Variable ROUTE_PORTS : string.
Variable host : Host.

Lemma derivedFields_repo r :
  derivedFields ROUTE_PORTS host (repo_node r) = Ok (repoDerived ROUTE_PORTS r).
Proof. destruct r as [id name [|release releases] stars url]; reflexivity. Qed.

Lemma mergeNode_repo port r :
  mergeNode ROUTE_PORTS host port (repo_node r)
  = Ok (spread (spread (repoDerived ROUTE_PORTS r) (ghRepoData (repo_node r)))
          port).
Proof. unfold mergeNode. by rewrite derivedFields_repo. Qed.

Lemma mergePort_covered idProperty repos port :
  existsb (sameId idProperty port) (repo_edge <$> repos) = true →
  ∃ r, r ∈ repos ∧
    mergePort ROUTE_PORTS host idProperty (repo_edge <$> repos) port
    = mergeNode ROUTE_PORTS host port (repo_node r).
Proof.
  intros Hsome. apply find_existsb in Hsome as [gh Hgh].
  unfold mergePort. rewrite Hgh.
  apply find_Some in Hgh as [Hin _].
  apply list_elem_of_fmap in Hin as (r & -> & Hr). eauto.
Qed.

(** A merged record whose static part leaves [stargazers] alone carries the
    repository's total as a number. *)
Lemma stargazersCount_merged port r :
  defines "stargazers" port = false →
  stargazersCount
    (spread (spread (repoDerived ROUTE_PORTS r) (ghRepoData (repo_node r)))
       port)
  = Ok (VNum (repo_stargazers r)).
Proof.
  unfold defines, stargazersCount, getField. intros Hport.
  rewrite !spread_lookup.
  destruct (port !! "stargazers"); [done|]. reflexivity.
Qed.

Lemma merged_records idProperty projectPorts repos :
  fullCoverage idProperty projectPorts (repo_edge <$> repos) = true →
  ∃ merged,
    mapM (mergePort ROUTE_PORTS host idProperty (repo_edge <$> repos))
      projectPorts = Ok merged ∧
    Forall2 (λ port md, ∃ r, r ∈ repos ∧
               md = spread (spread (repoDerived ROUTE_PORTS r)
                              (ghRepoData (repo_node r))) port)
      projectPorts merged.
Proof.
  unfold fullCoverage. intros Hcover.
  destruct (mapM_returns
              (mergePort ROUTE_PORTS host idProperty (repo_edge <$> repos))
              projectPorts) as [merged Hmerged].
  { induction projectPorts as [|port ports IH]; [constructor|].
    simpl in Hcover. apply andb_true_iff in Hcover as [Hport Hports].
    constructor; [|by apply IH].
    destruct (mergePort_covered idProperty repos port Hport) as (r & _ & ->).
    rewrite mergeNode_repo. eauto. }
  exists merged. split; [done|].
  apply mapM_each in Hmerged. clear -Hmerged Hcover.
  induction Hmerged as [|port md ports merged Hmd _ IH]; [constructor|].
  simpl in Hcover. apply andb_true_iff in Hcover as [Hport Hports].
  constructor; [|by apply IH].
  destruct (mergePort_covered idProperty repos port Hport) as (r & Hr & Heq).
  rewrite Heq, mergeNode_repo in Hmd. injection Hmd as <-. eauto.
Qed.

Lemma merged_counts projectPorts (repos : list Repository) merged :
  noneDefines "stargazers" projectPorts = true →
  Forall2 (λ port md, ∃ r, r ∈ repos ∧
             md = spread (spread (repoDerived ROUTE_PORTS r)
                            (ghRepoData (repo_node r))) port)
    projectPorts merged →
  Forall (λ md, ∃ n, stargazersCount md = Ok (VNum n)) merged.
Proof.
  unfold noneDefines. intros Hnone Hmerged.
  induction Hmerged as [|port md ports merged (r & _ & ->) _ IH];
    [constructor|].
  simpl in Hnone. apply andb_true_iff in Hnone as [Hport Hports].
  apply negb_true_iff in Hport.
  constructor; [|by apply IH].
  exists (repo_stargazers r). by apply stargazersCount_merged.
Qed.

(** On numeric counts the comparison function answers 1 when the first
    record has fewer stargazers and 0 otherwise: never below zero. *)
Lemma compareStars_numeric md1 md2 a b :
  stargazersCount md1 = Ok (VNum a) → stargazersCount md2 = Ok (VNum b) →
  compareStars host md1 md2 = Ok (if bool_decide (a < b) then 1 else 0).
Proof.
  intros H1 H2. unfold compareStars. rewrite H1, H2. simpl.
  unfold ToNumber. case_bool_decide as Hab.
  - by apply Z.ltb_lt in Hab as ->.
  - by apply Z.ltb_nlt in Hab as ->.
Qed.

Lemma compareStars_signal merged :
  Forall (λ md, ∃ n, stargazersCount md = Ok (VNum n)) merged →
  ∀ x y, x ∈ merged → y ∈ merged →
    ∃ v, compareStars host x y = Ok v ∧ 0 ≤ v.
Proof.
  intros Hcounts x y Hx Hy.
  destruct (proj1 (Forall_forall _ _) Hcounts x Hx) as [a Ha].
  destruct (proj1 (Forall_forall _ _) Hcounts y Hy) as [b Hb].
  rewrite (compareStars_numeric x y a b Ha Hb).
  eexists. split; [done|]. by case_bool_decide.
Qed.

End HookFacts.

Lemma derivedFields_shape ROUTE_PORTS host n derived :
  derivedFields ROUTE_PORTS host n = Ok derived →
  ∃ count u latest suffix,
    derived
    = <["url" := VStr (ROUTE_PORTS +:+ "/" +:+ suffix)]>
      (<["releaseLatest" := latest]>
       (<["stargazers" :=
            VObj (<["url" := VStr (u +:+ "/stargazers")]>
                  (<["count" := count]> ∅))]>
        (<["gitHubRepositoryUrl" := getField n "url"]> ∅))).
Proof.
  unfold derivedFields.
  destruct (getProp _ "totalCount") as [count|]; [simpl|done].
  destruct (substitution _ _) as [u|]; [simpl|done].
  destruct (getProp _ "edges") as [es|]; [simpl|done].
  destruct (getFirst es) as [first|]; [simpl|done].
  destruct (optChain first "node") as [latest|]; [simpl|done].
  destruct (callStripPrefix _) as [suffix|]; [simpl|done].
  intros [= <-]. eauto.
Qed.

Lemma Forall2_both {A B : Type} (P Q : A → B → Prop) l k :
  Forall2 P l k → Forall2 Q l k → Forall2 (λ x y, P x y ∧ Q x y) l k.
Proof.
  intros HP. induction HP as [|x y l k Hxy _ IH]; intros HQ.
  - constructor.
  - apply Forall2_cons_1 in HQ as [Hq HQ]. constructor; auto.
Qed.

Section CorrespondenceFacts.

Variable ROUTE_PORTS : string.
Variable host : Host.

Lemma stargazersCount_kept port r :
  keepsStargazers port = true →
  ∃ n, stargazersCount
         (spread (spread (repoDerived ROUTE_PORTS r)
                    (ghRepoData (repo_node r))) port) = Ok (VNum n).
Proof.
  unfold keepsStargazers, stargazersCount, getField. intros Hport.
  rewrite !spread_lookup.
  destruct (port !! "stargazers") as [[| | | | |stargazers|]|]; try done.
  - simpl. unfold getField.
    destruct (stargazers !! "count") as [[| | |n| | |]|]; try done.
    simpl. eauto.
  - simpl. eauto.
Qed.

Lemma guaranteedFields_merged port r :
  keepsStargazers port = true →
  guaranteedFields port
    (spread (spread (repoDerived ROUTE_PORTS r) (ghRepoData (repo_node r)))
       port).
Proof.
  unfold keepsStargazers, defines. intros Hport. repeat split.
  - rewrite !spread_lookup. destruct (port !! "gitHubRepositoryUrl"); eauto.
  - rewrite !spread_lookup.
    destruct (port !! "stargazers") as [[| | | | |stargazers|]|]; try done.
    + exists stargazers. split; [done|].
      destruct (stargazers !! "count") as [[| | |n| | |]|]; try done.
      split; [eauto|]. by destruct (stargazers !! "url").
    + eexists. split; [reflexivity|]. split; eexists; reflexivity.
  - rewrite !spread_lookup. destruct (port !! "url"); eauto.
  - intros k v Hk. by rewrite spread_lookup, Hk.
Qed.

(** With full coverage the map callback returns for every static record,
    and each merged record is the overlay built from its own static record. *)
Lemma merged_with_source idProperty projectPorts repos :
  fullCoverage idProperty projectPorts (repo_edge <$> repos) = true →
  ∃ merged,
    mapM (mergePort ROUTE_PORTS host idProperty (repo_edge <$> repos))
      projectPorts = Ok merged ∧
    Forall2 (λ port md,
               mergePort ROUTE_PORTS host idProperty (repo_edge <$> repos)
                 port = Ok md ∧
               ∃ r, r ∈ repos ∧
                 md = spread (spread (repoDerived ROUTE_PORTS r)
                                (ghRepoData (repo_node r))) port)
      projectPorts merged.
Proof.
  intros Hcover.
  destruct (merged_records ROUTE_PORTS host idProperty projectPorts repos
              Hcover) as (merged & Hmerged & Hsource).
  exists merged. split; [done|].
  apply Forall2_both; [by apply mapM_each|done].
Qed.

End CorrespondenceFacts.

(** ** Properties of the hook *)

(** C1 (the code departs from the claim). The comparison function hands the
    sort the boolean [md1.stargazers.count < md2.stargazers.count], which
    [SortCompare] reads as 1 or 0 and never as a negative number. Run on V8,
    the hook returns the sample ports, whose repositories have 5, 20 and 10
    stargazers, in the static list's order 5, 20, 10: not descending. *)
Theorem stargazer_order_on_V8 :
  ∃ out,
    usePortsMetadata Sample.ROUTE_PORTS Sample.v8 None Sample.projectPorts
      Sample.edges = Ok out ∧
    stargazersCount <$> out = [Ok (VNum 5); Ok (VNum 20); Ok (VNum 10)] ∧
    descending [5; 20; 10] = false.
Proof. eexists. split; [vm_compute; reflexivity|]. split; reflexivity. Qed.

(** X1. Under V8's short-array sort the comparison function of line 97
    moves nothing: with full coverage and no static record defining
    [stargazers], the output is the merged list in the static list's order. *)
Theorem V8_keeps_static_order ROUTE_PORTS coerceString coerceLess idProperty
    projectPorts repos :
  (length projectPorts < 64)%nat →
  fullCoverage idProperty projectPorts (repo_edge <$> repos) = true →
  noneDefines "stargazers" projectPorts = true →
  mergedMetadata ROUTE_PORTS (V8.host coerceString coerceLess) idProperty
    projectPorts (repo_edge <$> repos)
  = mapM (mergePort ROUTE_PORTS (V8.host coerceString coerceLess) idProperty
            (repo_edge <$> repos)) projectPorts.
Proof.
  intros _ Hcover Hnone. unfold mergedMetadata.
  destruct (merged_records ROUTE_PORTS (V8.host coerceString coerceLess)
              idProperty projectPorts repos Hcover) as (merged & -> & Hmerged).
  simpl. apply ArrayTimSort_nonnegative.
  apply compareStars_signal.
  by eapply merged_counts.
Qed.

Lemma V8_keeps_static_order_witness :
  mergedMetadata Sample.ROUTE_PORTS Sample.v8 "name" Sample.projectPorts
    (repo_edge <$> [Sample.vim; Sample.emacs; Sample.tmux])
  = mapM (mergePort Sample.ROUTE_PORTS Sample.v8 "name"
            (repo_edge <$> [Sample.vim; Sample.emacs; Sample.tmux]))
      Sample.projectPorts.
Proof.
  apply (V8_keeps_static_order Sample.ROUTE_PORTS (λ _, TypeError)
           (λ _ _, TypeError) "name" Sample.projectPorts
           [Sample.vim; Sample.emacs; Sample.tmux]);
    [simpl; lia | reflexivity | reflexivity].
Defined.

(** C2. A static record whose [idProperty] value equals that of no remote
    record makes the lookup return [undefined]; reading [gh.node] then throws,
    for that record and so for the whole computation: nothing is returned, the
    record is neither dropped nor replaced. *)
Theorem missing_match_faults ROUTE_PORTS host idProperty before port rest
    edges :
  existsb (sameId idProperty port) edges = false →
  mergePort ROUTE_PORTS host idProperty edges port = TypeError ∧
  mergedMetadata ROUTE_PORTS host idProperty (before ++ port :: rest) edges
  = TypeError.
Proof.
  intros Hnone.
  assert (mergePort ROUTE_PORTS host idProperty edges port = TypeError)
    as Hport.
  { unfold mergePort. by rewrite (find_none _ _ Hnone). }
  split; [done|].
  unfold mergedMetadata. by rewrite (mapM_fault _ before port rest Hport).
Qed.

Lemma missing_match_faults_witness :
  mergePort Sample.ROUTE_PORTS Sample.v8 "name" Sample.edges Sample.portAtom
  = TypeError ∧
  mergedMetadata Sample.ROUTE_PORTS Sample.v8 "name"
    ([Sample.portVim] ++ Sample.portAtom :: [Sample.portEmacs]) Sample.edges
  = TypeError.
Proof.
  apply (missing_match_faults Sample.ROUTE_PORTS Sample.v8 "name"
           [Sample.portVim] Sample.portAtom [Sample.portEmacs] Sample.edges).
  reflexivity.
Defined.

(** C3. For a static record whose lookup finds a remote record on which the
    derived properties can be computed, whatever further properties that
    record carries, the merged record is the four derived properties overlaid
    by the remote pass-through properties overlaid by the static record's
    properties: under every name the static record's value wins, then the
    pass-through value, then the derived one. *)
Theorem merged_record_overlay ROUTE_PORTS host idProperty edges port gh
    derived :
  find (sameId idProperty port) edges = Some gh →
  derivedFields ROUTE_PORTS host (node gh) = Ok derived →
  dom derived
  = ({[ "gitHubRepositoryUrl"; "stargazers"; "releaseLatest"; "url" ]}
     : gset string) ∧
  ∃ md,
    mergePort ROUTE_PORTS host idProperty edges port = Ok md ∧
    ∀ k, md !! k
         = match port !! k with
           | Some v => Some v
           | None =>
               match ghRepoData (node gh) !! k with
               | Some v => Some v
               | None => derived !! k
               end
           end.
Proof.
  intros Hfind Hderived. split.
  - apply derivedFields_shape in Hderived
      as (count & u & latest & suffix & ->).
    rewrite !dom_insert_L, dom_empty_L. set_solver.
  - eexists. split.
    + unfold mergePort, mergeNode. rewrite Hfind, Hderived. reflexivity.
    + intros k. by rewrite !spread_lookup.
Qed.

Lemma merged_record_overlay_witness :
  dom (repoDerived Sample.ROUTE_PORTS Sample.emacs)
  = ({[ "gitHubRepositoryUrl"; "stargazers"; "releaseLatest"; "url" ]}
     : gset string) ∧
  ∃ md,
    mergePort Sample.ROUTE_PORTS Sample.v8 "name"
      [repo_edge Sample.vim; {| node := Sample.nodeShadowing |}]
      Sample.portEmacsRelease = Ok md ∧
    ∀ k, md !! k
         = match Sample.portEmacsRelease !! k with
           | Some v => Some v
           | None =>
               match ghRepoData Sample.nodeShadowing !! k with
               | Some v => Some v
               | None => repoDerived Sample.ROUTE_PORTS Sample.emacs !! k
               end
           end.
Proof.
  apply (merged_record_overlay Sample.ROUTE_PORTS Sample.v8 "name"
           [repo_edge Sample.vim; {| node := Sample.nodeShadowing |}]
           Sample.portEmacsRelease {| node := Sample.nodeShadowing |}
           (repoDerived Sample.ROUTE_PORTS Sample.emacs));
    reflexivity.
Defined.

(** On that record the three layers collide: [releaseLatest] is in all of
    them and the static value wins, [gitHubRepositoryUrl] is derived and
    passed through and the pass-through value wins, [url] is only derived. *)
Lemma overlay_at_collisions :
  ∃ md,
    mergePort Sample.ROUTE_PORTS Sample.v8 "name"
      [repo_edge Sample.vim; {| node := Sample.nodeShadowing |}]
      Sample.portEmacsRelease = Ok md ∧
    md !! "releaseLatest" = Some (VStr "0.5.0") ∧
    md !! "gitHubRepositoryUrl"
    = Some (VStr "https://example.org/mirror/nord-emacs") ∧
    md !! "url" = Some (VStr "/ports/emacs").
Proof.
  eexists. split; [reflexivity|]. repeat split; reflexivity.
Qed.

(** C4 (as stated, refuted). The rest object of the destructuring on line 87
    still holds the identifying property: with [idProperty] the default
    ["name"], the pass-through set of the sample repository keeps its [name]. *)
Lemma passthrough_keeps_id :
  sameId "name" Sample.portVim (repo_edge Sample.vim) = true ∧
  ghRepoData (repo_node Sample.vim) !! "name" = Some (VStr "nord-vim") ∧
  ghRepoData (repo_node Sample.vim)
  ≠ delete "name"
      (delete "url" (delete "stargazers" (delete "releases"
         (repo_node Sample.vim)))).
Proof.
  split; [reflexivity|]. split; [reflexivity|].
  intros Heq.
  assert (ghRepoData (repo_node Sample.vim) !! "name" = None) as Hname
    by (rewrite Heq; apply lookup_delete_eq).
  discriminate Hname.
Qed.

(** C4 (amended). The pass-through set is the remote record with exactly
    [releases], [stargazers] and [url] removed. The identifying property is
    removed only when [idProperty] is one of those three names; under any
    other name, the default ["name"] included, it is kept with its value.
    What the set holds reaches the merged record wherever the static record
    defines nothing of that name. *)
Theorem passthrough_fields (idProperty : string) (n : obj) :
  (∀ k, ghRepoData n !! k
        = if bool_decide (k = "releases" ∨ k = "stargazers" ∨ k = "url")
          then None else n !! k) ∧
  (idProperty = "releases" ∨ idProperty = "stargazers" ∨ idProperty = "url" →
   ghRepoData n !! idProperty = None) ∧
  (idProperty ≠ "releases" → idProperty ≠ "stargazers" →
   idProperty ≠ "url" →
   ghRepoData n !! idProperty = n !! idProperty) ∧
  (∀ ROUTE_PORTS host port md,
     mergeNode ROUTE_PORTS host port n = Ok md →
     ∀ k v, port !! k = None → ghRepoData n !! k = Some v →
       md !! k = Some v).
Proof.
  assert (∀ k, k = "releases" ∨ k = "stargazers" ∨ k = "url" →
               ghRepoData n !! k = None) as Hremoved.
  { intros k Hk. unfold ghRepoData.
    destruct Hk as [ -> | [ -> | -> ] ];
      repeat first [apply lookup_delete_eq | rewrite lookup_delete_ne by done]. }
  split; [|split; [|split]].
  - intros k. case_bool_decide as Hk; [by apply Hremoved|].
    apply ghRepoData_lookup_rest; naive_solver.
  - apply Hremoved.
  - apply ghRepoData_lookup_rest.
  - intros ROUTE_PORTS host port md. unfold mergeNode.
    destruct (derivedFields ROUTE_PORTS host n) as [derived|]; [simpl|done].
    intros [= <-] k v Hport Hk. by rewrite !spread_lookup, Hport, Hk.
Qed.

(** With [idProperty] set to ["url"] the lookup matches on the repository's
    [url], and that identifying property is among the three removed. *)
Lemma passthrough_drops_url_id :
  find (sameId "url" Sample.portVimByUrl) Sample.edges
  = Some (repo_edge Sample.vim) ∧
  ghRepoData (repo_node Sample.vim) !! "url" = None.
Proof. split; reflexivity. Qed.

(** C5 (as stated, refuted). A static record may define [stargazers]
    itself; its value then replaces the derived object, and the output record
    has no [stargazers.count]. *)
Lemma static_stargazers_shadow :
  fullCoverage "name" [Sample.portVimStars] Sample.edges = true ∧
  ∃ md,
    mergedMetadata Sample.ROUTE_PORTS Sample.v8 "name" [Sample.portVimStars]
      Sample.edges = Ok [md] ∧
    md !! "stargazers" = Some (VStr "many") ∧
    ∀ port, ¬ guaranteedFields port md.
Proof.
  split; [reflexivity|].
  exists (spread (spread (repoDerived Sample.ROUTE_PORTS Sample.vim)
                    (ghRepoData (repo_node Sample.vim))) Sample.portVimStars).
  split; [reflexivity|]. split; [reflexivity|].
  intros port (_ & (stargazers & Hstargazers & _) & _).
  discriminate Hstargazers.
Qed.

(** C5 (amended). With full coverage, and every static record either
    leaving [stargazers] alone or defining it as an object with a numeric
    [count] and a [url], the hook returns; its output is a rearrangement of
    the records merged from the static records, one from each, and each of
    them holds [gitHubRepositoryUrl], [stargazers.count], [stargazers.url],
    [url] and all the fields of the static record it was merged from. *)
Theorem output_fields ROUTE_PORTS host idProperty projectPorts repos :
  conforming host →
  fullCoverage idProperty projectPorts (repo_edge <$> repos) = true →
  forallb keepsStargazers projectPorts = true →
  ∃ out merged,
    mergedMetadata ROUTE_PORTS host idProperty projectPorts
      (repo_edge <$> repos) = Ok out ∧
    out ≡ₚ merged ∧
    Forall2 (λ port md,
               mergePort ROUTE_PORTS host idProperty (repo_edge <$> repos)
                 port = Ok md ∧
               guaranteedFields port md)
      projectPorts merged.
Proof.
  intros [Hpermutation Hreturns] Hcover Hkept. unfold mergedMetadata.
  destruct (merged_with_source ROUTE_PORTS host idProperty projectPorts repos
              Hcover) as (merged & -> & Hmerged).
  simpl.
  assert (Forall2 (λ port md,
                     (mergePort ROUTE_PORTS host idProperty
                        (repo_edge <$> repos) port = Ok md ∧
                      guaranteedFields port md) ∧
                     ∃ n, stargazersCount md = Ok (VNum n))
            projectPorts merged) as Hfields.
  { clear -Hmerged Hkept.
    induction Hmerged as [|port md ports merged (Hmd & r & _ & ->) _ IH];
      [constructor|].
    simpl in Hkept. apply andb_true_iff in Hkept as [Hport Hports].
    constructor; [|by apply IH].
    split; [split; [done|by apply guaranteedFields_merged]|].
    by apply stargazersCount_kept. }
  assert (Forall (λ md, ∃ n, stargazersCount md = Ok (VNum n)) merged)
    as Hcounts.
  { clear -Hfields.
    induction Hfields as [|port md ports merged [_ Hmd] _ IH];
      constructor; done. }
  destruct (Hreturns (compareStars host) merged) as [out Hout].
  { intros x y Hx Hy.
    destruct (compareStars_signal host merged Hcounts x y Hx Hy)
      as (v & Hv & _).
    eauto. }
  exists out, merged. split; [done|].
  split; [exact (Hpermutation _ _ _ Hout)|].
  eapply Forall2_impl; [exact Hfields|]. by intros port md [H _].
Qed.

Lemma output_fields_witness :
  ∃ out merged,
    mergedMetadata Sample.ROUTE_PORTS Sample.v8 "name"
      [Sample.portTmux; Sample.portVim; Sample.portEmacsPinned]
      (repo_edge <$> [Sample.vim; Sample.emacs; Sample.tmux]) = Ok out ∧
    out ≡ₚ merged ∧
    Forall2 (λ port md,
               mergePort Sample.ROUTE_PORTS Sample.v8 "name"
                 (repo_edge <$> [Sample.vim; Sample.emacs; Sample.tmux])
                 port = Ok md ∧
               guaranteedFields port md)
      [Sample.portTmux; Sample.portVim; Sample.portEmacsPinned] merged.
Proof.
  apply (output_fields Sample.ROUTE_PORTS Sample.v8 "name"
           [Sample.portTmux; Sample.portVim; Sample.portEmacsPinned]
           [Sample.vim; Sample.emacs; Sample.tmux]);
    [apply V8_conforming | reflexivity | reflexivity].
Defined.

(** C6 (as stated, refuted). A static record may define [url] itself; the
    merged record then carries that value and not the route. *)
Lemma static_url_shadows_route :
  find (sameId "name" Sample.portVimUrl) Sample.edges
  = Some (repo_edge Sample.vim) ∧
  ∃ md,
    mergePort Sample.ROUTE_PORTS Sample.v8 "name" Sample.edges
      Sample.portVimUrl = Ok md ∧
    md !! "url" = Some (VStr "https://www.vim.org") ∧
    md !! "url"
    ≠ Some (VStr (Sample.ROUTE_PORTS +:+ "/" +:+ stripPrefix "nord-vim")).
Proof.
  split; [reflexivity|].
  exists (spread (spread (repoDerived Sample.ROUTE_PORTS Sample.vim)
                    (ghRepoData (repo_node Sample.vim))) Sample.portVimUrl).
  split; [reflexivity|]. split; [reflexivity|]. discriminate.
Qed.

(** C6 (amended). When the static record defines no [url] of its own, the
    merged record's [url] is the route base path, a slash and the
    repository's name without a leading ["nord-"]: the prefix is removed only
    at the start of the name, ["nord-vim"] gives ["vim"] and ["tmux"] stays
    ["tmux"]. *)
Theorem url_field ROUTE_PORTS host idProperty edges port r :
  find (sameId idProperty port) edges = Some (repo_edge r) →
  port !! "url" = None →
  (∃ md,
     mergePort ROUTE_PORTS host idProperty edges port = Ok md ∧
     md !! "url"
     = Some (VStr (ROUTE_PORTS +:+ "/" +:+ stripPrefix (repo_name r)))) ∧
  (∀ rest, stripPrefix ("nord-" +:+ rest) = rest) ∧
  (∀ name, (∀ rest, name ≠ "nord-" +:+ rest) → stripPrefix name = name) ∧
  stripPrefix "nord-vim" = "vim" ∧
  stripPrefix "tmux" = "tmux".
Proof.
  intros Hfind Hurl. split.
  - eexists. split.
    + unfold mergePort. rewrite Hfind. apply mergeNode_repo.
    + rewrite !spread_lookup, Hurl. reflexivity.
  - split; [apply stripPrefix_prefixed|].
    split; [apply stripPrefix_other|]. split; reflexivity.
Qed.

Lemma url_field_witness :
  (∃ md,
     mergePort Sample.ROUTE_PORTS Sample.v8 "name" Sample.edges Sample.portVim
     = Ok md ∧
     md !! "url"
     = Some (VStr (Sample.ROUTE_PORTS +:+ "/" +:+
                   stripPrefix (repo_name Sample.vim)))) ∧
  (∀ rest, stripPrefix ("nord-" +:+ rest) = rest) ∧
  (∀ name, (∀ rest, name ≠ "nord-" +:+ rest) → stripPrefix name = name) ∧
  stripPrefix "nord-vim" = "vim" ∧
  stripPrefix "tmux" = "tmux".
Proof.
  apply (url_field Sample.ROUTE_PORTS Sample.v8 "name" Sample.edges
           Sample.portVim Sample.vim); reflexivity.
Defined.

(** C7 (as stated, refuted). A static record may define [releaseLatest]
    itself; the merged record then carries that value although the
    repository's release list is empty. *)
Lemma static_release_shadows_latest :
  find (sameId "name" Sample.portEmacsRelease) Sample.edges
  = Some (repo_edge Sample.emacs) ∧
  repo_releases Sample.emacs = [] ∧
  ∃ md,
    mergePort Sample.ROUTE_PORTS Sample.v8 "name" Sample.edges
      Sample.portEmacsRelease = Ok md ∧
    getField md "releaseLatest" = VStr "0.5.0" ∧
    getField md "releaseLatest" ≠ VUndefined.
Proof.
  split; [reflexivity|]. split; [reflexivity|].
  exists (spread (spread (repoDerived Sample.ROUTE_PORTS Sample.emacs)
                    (ghRepoData (repo_node Sample.emacs)))
            Sample.portEmacsRelease).
  split; [reflexivity|]. split; [reflexivity|]. discriminate.
Qed.

(** C7 (amended). When the static record defines no [releaseLatest] of its
    own, the merge succeeds whether or not the repository has a release, and
    the merged record's [releaseLatest] is the first entry of the release
    list, or [undefined] exactly when that list is empty. *)
Theorem releaseLatest_field ROUTE_PORTS host idProperty edges port r :
  find (sameId idProperty port) edges = Some (repo_edge r) →
  port !! "releaseLatest" = None →
  ∃ md,
    mergePort ROUTE_PORTS host idProperty edges port = Ok md ∧
    getField md "releaseLatest"
    = match repo_releases r with
      | [] => VUndefined
      | release :: _ => VObj release
      end ∧
    (getField md "releaseLatest" = VUndefined ↔ repo_releases r = []).
Proof.
  intros Hfind Hport. eexists. split.
  - unfold mergePort. rewrite Hfind. apply mergeNode_repo.
  - unfold getField. rewrite !spread_lookup, Hport.
    destruct r as [id name [|release releases] stars url]; simpl.
    + split; [reflexivity|]. split; reflexivity.
    + split; [reflexivity|]. split; discriminate.
Qed.

Lemma releaseLatest_field_witness :
  ∃ md,
    mergePort Sample.ROUTE_PORTS Sample.v8 "name" Sample.edges Sample.portVim
    = Ok md ∧
    getField md "releaseLatest"
    = match repo_releases Sample.vim with
      | [] => VUndefined
      | release :: _ => VObj release
      end ∧
    (getField md "releaseLatest" = VUndefined ↔ repo_releases Sample.vim = []).
Proof.
  apply (releaseLatest_field Sample.ROUTE_PORTS Sample.v8 "name" Sample.edges
           Sample.portVim Sample.vim); reflexivity.
Defined.

(** C8. The record a static record is merged with is the first one, in the
    order of the remote sequence, whose [idProperty] value is strictly equal
    to the static record's; what follows it in the sequence, matching or not,
    has no influence. *)
Theorem first_match_wins ROUTE_PORTS host idProperty pre gh post port :
  existsb (sameId idProperty port) pre = false →
  sameId idProperty port gh = true →
  find (sameId idProperty port) (pre ++ gh :: post) = Some gh ∧
  mergePort ROUTE_PORTS host idProperty (pre ++ gh :: post) port
  = mergeNode ROUTE_PORTS host port (node gh).
Proof.
  intros Hpre Hgh.
  pose proof (find_first (sameId idProperty port) pre gh post Hpre Hgh)
    as Hfind.
  split; [done|]. unfold mergePort. by rewrite Hfind.
Qed.

Lemma first_match_wins_witness :
  find (sameId "name" Sample.portVim)
    ([repo_edge Sample.emacs] ++ repo_edge Sample.vim
       :: [repo_edge Sample.tmux; repo_edge Sample.vimFork])
  = Some (repo_edge Sample.vim) ∧
  mergePort Sample.ROUTE_PORTS Sample.v8 "name"
    ([repo_edge Sample.emacs] ++ repo_edge Sample.vim
       :: [repo_edge Sample.tmux; repo_edge Sample.vimFork])
    Sample.portVim
  = mergeNode Sample.ROUTE_PORTS Sample.v8 Sample.portVim
      (node (repo_edge Sample.vim)).
Proof.
  apply (first_match_wins Sample.ROUTE_PORTS Sample.v8 "name"
           [repo_edge Sample.emacs] (repo_edge Sample.vim)
           [repo_edge Sample.tmux; repo_edge Sample.vimFork] Sample.portVim);
    reflexivity.
Defined.




(** C10 (as stated, refuted). A static record may define [stargazers]
    itself; the merged record's [stargazers] is then that value, here [null],
    and not the object derived from the repository. *)
Lemma static_stargazers_shadow_derived :
  find (sameId "name" Sample.portTmuxNoStars) Sample.edges
  = Some (repo_edge Sample.tmux) ∧
  ∃ md,
    mergePort Sample.ROUTE_PORTS Sample.v8 "name" Sample.edges
      Sample.portTmuxNoStars = Ok md ∧
    md !! "stargazers" = Some VNull ∧
    md !! "stargazers"
    ≠ Some (VObj {[ "count" := VNum (repo_stargazers Sample.tmux);
                    "url" := VStr (repo_url Sample.tmux +:+ "/stargazers") ]}).
Proof.
  split; [reflexivity|].
  exists (spread (spread (repoDerived Sample.ROUTE_PORTS Sample.tmux)
                    (ghRepoData (repo_node Sample.tmux)))
            Sample.portTmuxNoStars).
  split; [reflexivity|]. split; [reflexivity|]. discriminate.
Qed.

(** C10 (amended). When the static record defines no [stargazers] of its
    own, the merged record's [stargazers] is the object whose [count] is the
    repository's [stargazers.totalCount] and whose [url] is the repository's
    [url] followed by ["/stargazers"], and nothing else. *)
Theorem stargazers_field ROUTE_PORTS host idProperty edges port r :
  find (sameId idProperty port) edges = Some (repo_edge r) →
  port !! "stargazers" = None →
  ∃ md,
    mergePort ROUTE_PORTS host idProperty edges port = Ok md ∧
    md !! "stargazers"
    = Some (VObj {[ "count" := VNum (repo_stargazers r);
                    "url" := VStr (repo_url r +:+ "/stargazers") ]}).
Proof.
  intros Hfind Hport. eexists. split.
  - unfold mergePort. rewrite Hfind. apply mergeNode_repo.
  - rewrite !spread_lookup, Hport. reflexivity.
Qed.

Lemma stargazers_field_witness :
  ∃ md,
    mergePort Sample.ROUTE_PORTS Sample.v8 "name" Sample.edges Sample.portVim
    = Ok md ∧
    md !! "stargazers"
    = Some (VObj {[ "count" := VNum (repo_stargazers Sample.vim);
                    "url" := VStr (repo_url Sample.vim +:+ "/stargazers") ]}).
Proof.
  apply (stargazers_field Sample.ROUTE_PORTS Sample.v8 "name" Sample.edges
           Sample.portVim Sample.vim); reflexivity.
Defined.

(** ** Further properties of the hook *)

Lemma getProp_returns v k :
  (∃ w, getProp v k = Ok w) ↔ nullish v = false.
Proof. destruct v; simpl; split; try done; try (intros [? [=]]); eauto. Qed.

Lemma getFirst_returns v :
  (∃ w, getFirst v = Ok w) ↔ nullish v = false.
Proof.
  destruct v as [| | | |s| |]; simpl; split; try done;
    try (intros [? [=]]); eauto.
  destruct s; eauto.
Qed.

Lemma optChain_returns v k : ∃ w, optChain v k = Ok w.
Proof. destruct v; simpl; eauto. Qed.

(** X2. Which remote records the merge accepts. For a node whose [url] is a
    string, the object literal is built exactly when [stargazers] is neither
    [undefined] nor [null], [releases] is an object whose [edges] is neither
    [undefined] nor [null], and [name] is a string; on every other node
    the merge throws. *)
Theorem mergeNode_returns_iff ROUTE_PORTS host port n u :
  getField n "url" = VStr u →
  (∃ md, mergeNode ROUTE_PORTS host port n = Ok md) ↔
  nullish (getField n "stargazers") = false ∧
  (∃ releases, getField n "releases" = VObj releases ∧
     nullish (getField releases "edges") = false) ∧
  (∃ name, getField n "name" = VStr name).
Proof.
  intros Hurl. unfold mergeNode, derivedFields. rewrite Hurl. simpl.
  split.
  - intros [md Hmd].
    destruct (getProp (getField n "stargazers") "totalCount") as [count|]
      eqn:Hcount; [simpl in Hmd|done].
    destruct (getProp (getField n "releases") "edges") as [es|] eqn:Hes;
      [simpl in Hmd|done].
    destruct (getFirst es) as [first|] eqn:Hfirst; [simpl in Hmd|done].
    destruct (optChain first "node") as [latest|]; [simpl in Hmd|done].
    destruct (getField n "name") as [| | | |name| |] eqn:Hname; try done.
    split; [apply (getProp_returns _ "totalCount"); eauto|].
    split; [|eauto].
    assert (nullish es = false) as Hnull by (apply getFirst_returns; eauto).
    destruct (getField n "releases") as [| | | | |releases|];
      simpl in Hes; try done; injection Hes as <-; try done.
    eauto.
  - intros (Hstars & (releases & -> & Hedges) & name & ->).
    apply (getProp_returns _ "totalCount") in Hstars as [count ->]. simpl.
    apply getFirst_returns in Hedges as [first ->]. simpl.
    destruct (optChain_returns first "node") as [latest ->]. simpl. eauto.
Qed.

Lemma mergeNode_returns_iff_witness :
  (∃ md, mergeNode Sample.ROUTE_PORTS Sample.v8 Sample.portEmacs
           Sample.nodeUnstarred = Ok md) ↔
  nullish (getField Sample.nodeUnstarred "stargazers") = false ∧
  (∃ releases, getField Sample.nodeUnstarred "releases" = VObj releases ∧
     nullish (getField releases "edges") = false) ∧
  (∃ name, getField Sample.nodeUnstarred "name" = VStr name).
Proof.
  apply (mergeNode_returns_iff Sample.ROUTE_PORTS Sample.v8 Sample.portEmacs
           Sample.nodeUnstarred "https://github.com/arcticicestudio/nord-emacs").
  reflexivity.
Defined.

(** X3. The sort neither adds, drops nor alters a record: whenever the
    hook returns, its output is a rearrangement of the records the map
    callback built, one from each static record in turn. *)
Theorem output_rearranges_merged ROUTE_PORTS host idProperty projectPorts
    edges out :
  conforming host →
  mergedMetadata ROUTE_PORTS host idProperty projectPorts edges = Ok out →
  ∃ merged,
    Forall2 (λ port md, mergePort ROUTE_PORTS host idProperty edges port = Ok md)
      projectPorts merged ∧
    out ≡ₚ merged.
Proof.
  intros [Hpermutation _]. unfold mergedMetadata.
  destruct (mapM _ projectPorts) as [merged|] eqn:Hmerged; [simpl|done].
  intros Hout. exists merged. split.
  - by apply mapM_each.
  - by eapply Hpermutation.
Qed.

Lemma output_rearranges_merged_witness :
  ∃ merged,
    Forall2 (λ port md, mergePort Sample.ROUTE_PORTS Sample.v8 "name"
                          Sample.edges port = Ok md)
      [Sample.portVim; Sample.portTmux] merged ∧
    [ spread (spread (repoDerived Sample.ROUTE_PORTS Sample.vim)
                (ghRepoData (repo_node Sample.vim))) Sample.portVim;
      spread (spread (repoDerived Sample.ROUTE_PORTS Sample.tmux)
                (ghRepoData (repo_node Sample.tmux))) Sample.portTmux ]
    ≡ₚ merged.
Proof.
  apply (output_rearranges_merged Sample.ROUTE_PORTS Sample.v8 "name"
           [Sample.portVim; Sample.portTmux] Sample.edges);
    [apply V8_conforming | reflexivity].
Defined.

Lemma find_filter {A : Type} (p : A → bool) l :
  find p (List.filter p l) = find p l.
Proof.
  induction l as [|x l IH]; simpl; [done|].
  destruct (p x) eqn:Hx; simpl; [by rewrite Hx|done].
Qed.

(** X4. Remote records that do not match a static record have no part in its
    merge: dropping them all from the remote sequence leaves the merged
    record, or the fault, as it was. *)
Theorem unmatched_edges_ignored ROUTE_PORTS host idProperty edges port :
  mergePort ROUTE_PORTS host idProperty
    (List.filter (sameId idProperty port) edges) port
  = mergePort ROUTE_PORTS host idProperty edges port.
Proof. unfold mergePort. by rewrite find_filter. Qed.

(** X5. A static record that lacks the identifying property is not refused:
    [undefined === undefined] holds, so it is merged with the first remote
    record that lacks the property too, and the lookup faults only when
    every remote record has it. *)
Theorem absent_id_joins_first_absent ROUTE_PORTS host idProperty port :
  port !! idProperty = None →
  (∀ pre gh post,
     Forall (λ e, getField (node e) idProperty ≠ VUndefined) pre →
     getField (node gh) idProperty = VUndefined →
     mergePort ROUTE_PORTS host idProperty (pre ++ gh :: post) port
     = mergeNode ROUTE_PORTS host port (node gh)) ∧
  (∀ edges,
     Forall (λ e, getField (node e) idProperty ≠ VUndefined) edges →
     mergePort ROUTE_PORTS host idProperty edges port = TypeError).
Proof.
  intros Hport.
  assert (∀ l, Forall (λ e, getField (node e) idProperty ≠ VUndefined) l →
               existsb (sameId idProperty port) l = false) as Hnone.
  { induction 1 as [|e l He _ IH]; simpl; [done|].
    rewrite IH, orb_false_r. unfold sameId, getField at 2. rewrite Hport.
    simpl. by destruct (getField (node e) idProperty). }
  split.
  - intros pre gh post Hpre Hgh. unfold mergePort.
    rewrite (find_first _ pre gh post (Hnone _ Hpre)); [done|].
    unfold sameId, getField at 2. by rewrite Hport, Hgh.
  - intros edges Hedges. unfold mergePort.
    by rewrite (find_none _ _ (Hnone _ Hedges)).
Qed.

Lemma absent_id_joins_first_absent_witness :
  (∀ pre gh post,
     Forall (λ e, getField (node e) "name" ≠ VUndefined) pre →
     getField (node gh) "name" = VUndefined →
     mergePort Sample.ROUTE_PORTS Sample.v8 "name" (pre ++ gh :: post)
       Sample.portUntitled
     = mergeNode Sample.ROUTE_PORTS Sample.v8 Sample.portUntitled (node gh)) ∧
  (∀ edges,
     Forall (λ e, getField (node e) "name" ≠ VUndefined) edges →
     mergePort Sample.ROUTE_PORTS Sample.v8 "name" edges Sample.portUntitled
     = TypeError).
Proof.
  apply (absent_id_joins_first_absent Sample.ROUTE_PORTS Sample.v8 "name"
           Sample.portUntitled).
  reflexivity.
Defined.

(** X6. The identifying property must hold a primitive. In the query result
    [releases] and [stargazers] are objects, and [===] compares objects by
    identity: with either as [idProperty] no static record finds a match, and
    the hook faults on every non-empty static list. *)
Theorem object_valued_id_faults ROUTE_PORTS host idProperty before port rest
    repos :
  idProperty = "releases" ∨ idProperty = "stargazers" →
  mergedMetadata ROUTE_PORTS host idProperty (before ++ port :: rest)
    (repo_edge <$> repos) = TypeError.
Proof.
  intros Hid.
  assert (existsb (sameId idProperty port) (repo_edge <$> repos) = false)
    as Hnone.
  { induction repos as [|r repos IH]; [done|].
    rewrite fmap_cons. cbn [existsb]. rewrite IH, orb_false_r.
    by destruct Hid as [ -> | -> ]. }
  unfold mergedMetadata. rewrite (mapM_fault _ before port rest); [done|].
  unfold mergePort. by rewrite (find_none _ _ Hnone).
Qed.

Lemma object_valued_id_faults_witness :
  mergedMetadata Sample.ROUTE_PORTS Sample.v8 "stargazers"
    ([] ++ Sample.portVimStars :: [Sample.portEmacs])
    (repo_edge <$> [Sample.vim; Sample.emacs; Sample.tmux]) = TypeError.
Proof.
  apply (object_valued_id_faults Sample.ROUTE_PORTS Sample.v8 "stargazers" []
           Sample.portVimStars [Sample.portEmacs]
           [Sample.vim; Sample.emacs; Sample.tmux]).
  right. reflexivity.
Defined.

(** X7. What the comparison function of line 97 tells the sort, on numeric
    counts: 1 when the first record has fewer stargazers than the second, 0
    in every other case. It never answers with a negative number, so for two
    different counts the two orders of asking give 1 and 0, not opposite
    signs. *)
Theorem comparator_signal host md1 md2 a b :
  stargazersCount md1 = Ok (VNum a) →
  stargazersCount md2 = Ok (VNum b) →
  ∃ v w,
    compareStars host md1 md2 = Ok v ∧
    compareStars host md2 md1 = Ok w ∧
    (a < b → v = 1 ∧ w = 0) ∧
    (b < a → v = 0 ∧ w = 1) ∧
    (a = b → v = 0 ∧ w = 0).
Proof.
  intros H1 H2. eexists _, _.
  split; [by apply compareStars_numeric|].
  split; [by apply compareStars_numeric|].
  repeat split; intros; repeat case_bool_decide; lia.
Qed.

Lemma comparator_signal_witness :
  ∃ v w,
    compareStars Sample.v8
      (spread (spread (repoDerived Sample.ROUTE_PORTS Sample.tmux)
                 (ghRepoData (repo_node Sample.tmux))) Sample.portTmux)
      (spread (spread (repoDerived Sample.ROUTE_PORTS Sample.vim)
                 (ghRepoData (repo_node Sample.vim))) Sample.portVim)
    = Ok v ∧
    compareStars Sample.v8
      (spread (spread (repoDerived Sample.ROUTE_PORTS Sample.vim)
                 (ghRepoData (repo_node Sample.vim))) Sample.portVim)
      (spread (spread (repoDerived Sample.ROUTE_PORTS Sample.tmux)
                 (ghRepoData (repo_node Sample.tmux))) Sample.portTmux)
    = Ok w ∧
    (5 < 20 → v = 1 ∧ w = 0) ∧
    (20 < 5 → v = 0 ∧ w = 1) ∧
    (5 = 20 → v = 0 ∧ w = 0).
Proof.
  apply (comparator_signal Sample.v8 _ _ 5 20); reflexivity.
Defined.

(** X8. The raw connections of the remote record do not reach the output.
    Whatever the node holds, a merged record has a [releases] property only
    if the static record defines one, and unless the static record defines
    [stargazers] its [stargazers] is the derived object, which has no
    [totalCount]. *)
Theorem raw_connections_dropped ROUTE_PORTS host port n md :
  mergeNode ROUTE_PORTS host port n = Ok md →
  md !! "releases" = port !! "releases" ∧
  (port !! "stargazers" = None →
   ∃ stargazers, md !! "stargazers" = Some (VObj stargazers) ∧
     stargazers !! "totalCount" = None).
Proof.
  unfold mergeNode.
  destruct (derivedFields ROUTE_PORTS host n) as [derived|] eqn:Hderived;
    [simpl|done].
  intros [= <-].
  apply derivedFields_shape in Hderived as (count & u & latest & suffix & ->).
  split.
  - rewrite !spread_lookup. destruct (port !! "releases"); [done|].
    unfold ghRepoData. rewrite lookup_delete_ne, lookup_delete_ne by done.
    by rewrite lookup_delete_eq.
  - intros Hport. rewrite !spread_lookup, Hport.
    unfold ghRepoData. rewrite lookup_delete_ne by done.
    rewrite lookup_delete_eq. eexists. split; reflexivity.
Qed.

Lemma raw_connections_dropped_witness :
  spread (spread (repoDerived Sample.ROUTE_PORTS Sample.vim)
            (ghRepoData (repo_node Sample.vim))) Sample.portVim
    !! "releases" = Sample.portVim !! "releases" ∧
  (Sample.portVim !! "stargazers" = None →
   ∃ stargazers,
     spread (spread (repoDerived Sample.ROUTE_PORTS Sample.vim)
               (ghRepoData (repo_node Sample.vim))) Sample.portVim
       !! "stargazers" = Some (VObj stargazers) ∧
     stargazers !! "totalCount" = None).
Proof.
  apply (raw_connections_dropped Sample.ROUTE_PORTS Sample.v8 Sample.portVim
           (repo_node Sample.vim)).
  reflexivity.
Defined.

(** X9. What the merged record takes over from the repository besides the
    claims' fields: the repository's [url] under the name
    [gitHubRepositoryUrl], and its [id] and [name] as they are, each unless
    the static record defines a property of that name. *)
Theorem repository_fields_taken_over ROUTE_PORTS host port r :
  ∃ md,
    mergeNode ROUTE_PORTS host port (repo_node r) = Ok md ∧
    (port !! "gitHubRepositoryUrl" = None →
     md !! "gitHubRepositoryUrl" = Some (VStr (repo_url r))) ∧
    (port !! "id" = None → md !! "id" = Some (VStr (repo_id r))) ∧
    (port !! "name" = None → md !! "name" = Some (VStr (repo_name r))).
Proof.
  eexists. split; [apply mergeNode_repo|].
  repeat split; intros Hport; by rewrite !spread_lookup, Hport.
Qed.

(** X10. The route is not injective in the repository name: a repository
    named ["nord-"] followed by [s] and one named [s] itself get the same
    derived [url]. *)
Theorem prefixed_and_plain_share_url ROUTE_PORTS host r1 r2 :
  repo_name r1 = "nord-" +:+ repo_name r2 →
  (∀ rest, repo_name r2 ≠ "nord-" +:+ rest) →
  ∃ derived1 derived2,
    derivedFields ROUTE_PORTS host (repo_node r1) = Ok derived1 ∧
    derivedFields ROUTE_PORTS host (repo_node r2) = Ok derived2 ∧
    derived1 !! "url" = derived2 !! "url" ∧
    derived1 !! "url" = Some (VStr (ROUTE_PORTS +:+ "/" +:+ repo_name r2)).
Proof.
  intros Hname Hplain. eexists _, _.
  split; [apply derivedFields_repo|]. split; [apply derivedFields_repo|].
  unfold repoDerived. rewrite !lookup_insert_eq.
  rewrite Hname, stripPrefix_prefixed, (stripPrefix_other _ Hplain). done.
Qed.

Lemma prefixed_and_plain_share_url_witness :
  ∃ derived1 derived2,
    derivedFields Sample.ROUTE_PORTS Sample.v8 (repo_node Sample.vim)
    = Ok derived1 ∧
    derivedFields Sample.ROUTE_PORTS Sample.v8 (repo_node Sample.plainVim)
    = Ok derived2 ∧
    derived1 !! "url" = derived2 !! "url" ∧
    derived1 !! "url"
    = Some (VStr (Sample.ROUTE_PORTS +:+ "/" +:+ repo_name Sample.plainVim)).
Proof.
  apply (prefixed_and_plain_share_url Sample.ROUTE_PORTS Sample.v8 Sample.vim
           Sample.plainVim); [reflexivity|].
  intros rest. discriminate.
Defined.

Lemma forallb_false_split {A : Type} (p : A → bool) l :
  forallb p l = false → ∃ before x rest, l = before ++ x :: rest ∧ p x = false.
Proof.
  induction l as [|y l IH]; simpl; [done|].
  destruct (p y) eqn:Hy; simpl.
  - intros Hl. destruct (IH Hl) as (before & x & rest & -> & Hx).
    by exists (y :: before), x, rest.
  - intros _. by exists [], y, l.
Qed.

(** X11. When the remote records have the query's shape and no static
    record defines [stargazers], a missing counterpart is the only way to
    fail: the hook returns a sequence exactly when every static record has a
    counterpart in the remote result set. *)
Theorem returns_iff_covered ROUTE_PORTS host idProperty projectPorts repos :
  conforming host →
  noneDefines "stargazers" projectPorts = true →
  (∃ out,
     mergedMetadata ROUTE_PORTS host idProperty projectPorts
       (repo_edge <$> repos) = Ok out) ↔
  fullCoverage idProperty projectPorts (repo_edge <$> repos) = true.
Proof.
  intros [_ Hreturns] Hnone. split.
  - intros [out Hout].
    destruct (fullCoverage idProperty projectPorts (repo_edge <$> repos))
      eqn:Hcover; [done|].
    apply forallb_false_split in Hcover
      as (before & port & rest & -> & Hport).
    unfold mergedMetadata in Hout.
    rewrite (mapM_fault _ before port rest) in Hout; [done|].
    unfold mergePort. by rewrite (find_none _ _ Hport).
  - intros Hcover. unfold mergedMetadata.
    destruct (merged_records ROUTE_PORTS host idProperty projectPorts repos
                Hcover) as (merged & -> & Hmerged).
    simpl. apply Hreturns. intros x y Hx Hy.
    destruct (compareStars_signal host merged
                (merged_counts ROUTE_PORTS projectPorts repos merged
                   Hnone Hmerged) x y Hx Hy) as (v & Hv & _).
    eauto.
Qed.

Lemma returns_iff_covered_witness :
  (∃ out,
     mergedMetadata Sample.ROUTE_PORTS Sample.v8 "name"
       [Sample.portVim; Sample.portAtom]
       (repo_edge <$> [Sample.vim; Sample.emacs]) = Ok out) ↔
  fullCoverage "name" [Sample.portVim; Sample.portAtom]
    (repo_edge <$> [Sample.vim; Sample.emacs]) = true.
Proof.
  apply (returns_iff_covered Sample.ROUTE_PORTS Sample.v8 "name"
           [Sample.portVim; Sample.portAtom] [Sample.vim; Sample.emacs]);
    [apply V8_conforming | reflexivity].
Defined.

(** X12. An empty static list gives an empty output, whatever the remote
    result set holds: no remote record is looked at, and none is added. *)
Theorem empty_ports_empty_output ROUTE_PORTS host idProperty edges :
  conforming host →
  mergedMetadata ROUTE_PORTS host idProperty [] edges = Ok [].
Proof.
  intros [Hpermutation Hreturns]. unfold mergedMetadata. simpl.
  destruct (Hreturns (compareStars host) []) as [out Hout].
  { intros x y Hx. by apply elem_of_nil in Hx. }
  rewrite Hout. f_equal.
  apply Permutation_nil_r. exact (Hpermutation _ _ _ Hout).
Qed.

Lemma empty_ports_empty_output_witness :
  mergedMetadata Sample.ROUTE_PORTS Sample.v8 "name" []
    [ {| node := Sample.nodeUnstarred |}; {| node := Sample.nodeUnnamed |} ]
  = Ok [].
Proof.
  apply (empty_ports_empty_output Sample.ROUTE_PORTS Sample.v8 "name").
  apply V8_conforming.
Defined.
